(** * DreamWeaver AI bot: the message handlers of [main.py]

    A shallow embedding of [handle_text] and [error_handler].  The chat
    transport and the generation service are external: every call to them
    is answered by a [World], which decides whether the call returns or
    raises, and every call is recorded, in order, in a trace of [event]s.
    A handler is a function from a world and its input to that trace and a
    [result] (normal return, or the exception that leaves the handler). *)

From Stdlib Require Import List NArith ZArith QArith Bool Lia.
From Stdlib.Strings Require Import String Ascii Byte.
Import ListNotations.

Local Open Scope N_scope.

(** ** Python values *)

(** A Python [str] is a sequence of Unicode code points. *)
Definition str := list N.

(** An ASCII-only literal, code point by code point. *)
Definition lit (s : string) : str :=
  map N_of_ascii (list_ascii_of_string s).

Definition bytes := list byte.

(** [str.isspace] on one code point, as [str.strip()] uses it: the ASCII
    white space characters and separators, and the Unicode white space. *)
Definition isspace (c : N) : bool :=
  ((0x09 <=? c) && (c <=? 0x0D)) || ((0x1C <=? c) && (c <=? 0x20))
  || (c =? 0x85) || (c =? 0xA0) || (c =? 0x1680)
  || ((0x2000 <=? c) && (c <=? 0x200A))
  || (c =? 0x2028) || (c =? 0x2029) || (c =? 0x202F) || (c =? 0x205F)
  || (c =? 0x3000).

Fixpoint lstrip (s : str) : str :=
  match s with
  | c :: s' => if isspace c then lstrip s' else s
  | [] => []
  end.

Definition rstrip (s : str) : str := rev (lstrip (rev s)).

(** [s.strip()]: the left index moves right over white space, then the right
    index moves left over white space. *)
Definition strip (s : str) : str := rstrip (lstrip s).

(** [s.startswith(prefix)] *)
Fixpoint startswith (s prefix : str) {struct prefix} : bool :=
  match prefix, s with
  | [], _ => true
  | p :: prefix', c :: s' => (c =? p) && startswith s' prefix'
  | _ :: _, [] => false
  end.

(** Truthiness of a [str]: [not prompt] is [negb (truthy prompt)]. *)
Definition truthy (s : str) : bool :=
  match s with [] => false | _ :: _ => true end.

(** An exception object: what [str(e)] gives, and whether its class derives
    from [Exception] (what [except Exception] catches; a bare [except:]
    catches the others too). *)
Record exn := { exn_str : str; exn_is_Exception : bool }.

(** [io.BytesIO]: a buffer and a read position; a reader gets the bytes from
    the position on. *)
Record BytesIO := { buffer : bytes; position : nat }.

Definition BytesIO_new (b : bytes) : BytesIO :=
  {| buffer := b; position := 0%nat |}.
Definition seek (f : BytesIO) (p : nat) : BytesIO :=
  {| buffer := buffer f; position := p |}.
Definition payload (f : BytesIO) : bytes := skipn (position f) (buffer f).

(** ** The generation service's types *)

Module generation.

(** Modelled from the spec: [generation_pb2] is not part of the sources; the
    data model gives an artifact's type as an enum "image | other". *)
Inductive ArtifactType := ARTIFACT_IMAGE | ARTIFACT_OTHER.

(** Modelled from the spec: [generation_pb2] is not part of the sources; the
    sampler is an enum of which the handler names one fixed member. *)
Inductive DiffusionSampler := SAMPLER_K_DPMPP_2M | SAMPLER_OTHER.

Definition ArtifactType_eqb (a b : ArtifactType) : bool :=
  match a, b with
  | ARTIFACT_IMAGE, ARTIFACT_IMAGE => true
  | ARTIFACT_OTHER, ARTIFACT_OTHER => true
  | _, _ => false
  end.

Record Artifact := { type : ArtifactType; binary : bytes }.

(** One entry of the response. *)
Record Answer := { artifacts : list Artifact }.

End generation.
Import generation.

(** The keyword arguments of [stability_api.generate]. *)
Record GenerationRequest := {
  prompt : str;
  seed : Z;
  steps : Z;
  cfg_scale : Q;
  width : Z;
  height : Z;
  samples : Z;
  sampler : DiffusionSampler
}.

(** What [stability_api.generate] returns is iterated by a [for] loop: each
    step of the iteration yields an entry, ends, or raises. *)
Inductive Answers :=
| StopIteration
| Yield (resp : Answer) (rest : Answers)
| IterRaise (e : exn).

(** The iterator that yields the entries of [l] and then goes on as [tail]. *)
Fixpoint yield_all (l : list Answer) (tail : Answers) : Answers :=
  match l with
  | [] => tail
  | resp :: l' => Yield resp (yield_all l' tail)
  end.

(** ** The chat transport's types *)

(** A message the bot has sent (what [reply_text] returns). *)
Record Message := { message_id : Z }.

(** An incoming message, and the update that may carry one
    ([update.message] is [None] for the other kinds of update).
    [update_str] is what formatting the update in a log line gives. *)
Record IncomingMessage := { text : str }.
Record Update := { update_str : str; message : option IncomingMessage }.

(** ** The outside world *)

(** The answers of the transport and of the service to the handler's calls:
    [inl e] when the call raises [e].  A handler run makes each of these calls
    at most once, so an answer depends on the call's arguments only.  The
    iteration of a response is finite. *)
Record World := {
  time_time : Q;
  world_reply_text : str -> exn + Message;
  world_generate : GenerationRequest -> exn + Answers;
  world_reply_photo : BytesIO -> str -> exn + Message;
  world_delete : Message -> exn + unit;
  world_edit_text : Message -> str -> exn + Message
}.

Inductive outcome := Ok | Err (e : exn).

Inductive event :=
| ReplyText (text : str) (o : outcome)
| Generate (req : GenerationRequest) (o : outcome)
| ReplyPhoto (photo : BytesIO) (caption : str) (o : outcome)
| Delete (m : Message) (o : outcome)
| EditText (m : Message) (text : str) (o : outcome)
| LogError (msg : str).

(** ** Traces and exceptions *)

Inductive result (A : Type) :=
| Returned (a : A)
| Raised (e : exn).
Arguments Returned {A} a.
Arguments Raised {A} e.

Definition M (A : Type) : Type := list event * result A.

Definition ret {A} (a : A) : M A := ([], Returned a).
Definition raise {A} (e : exn) : M A := ([], Raised e).

Definition bind {A B} (m : M A) (f : A -> M B) : M B :=
  match m with
  | (t, Returned a) => let (t', r) := f a in (t ++ t', r)
  | (t, Raised e) => (t, Raised e)
  end.

Notation "x <- m ;; k" := (bind m (fun x => k))
  (at level 61, m at next level, right associativity).
Notation "m ;;; k" := (bind m (fun _ => k))
  (at level 61, right associativity).

(** [try: body except Exception as e: handler e] *)
Definition try_except_Exception {A} (body : M A) (handler : exn -> M A) : M A :=
  match body with
  | (t, Raised e) =>
      if exn_is_Exception e
      then let (t', r) := handler e in (t ++ t', r)
      else (t, Raised e)
  | (t, Returned a) => (t, Returned a)
  end.

(** [try: body except: handler] *)
Definition try_except {A} (body : M A) (handler : M A) : M A :=
  match body with
  | (t, Raised e) => let (t', r) := handler in (t ++ t', r)
  | (t, Returned a) => (t, Returned a)
  end.

(** A call to the outside: recorded with its outcome. *)
Definition call {A} (ev : outcome -> event) (r : exn + A) : M A :=
  match r with
  | inr a => ([ev Ok], Returned a)
  | inl e => ([ev (Err e)], Raised e)
  end.

Definition reply_text (w : World) (text : str) : M Message :=
  call (ReplyText text) (world_reply_text w text).
Definition generate (w : World) (req : GenerationRequest) : M Answers :=
  call (Generate req) (world_generate w req).
Definition reply_photo (w : World) (photo : BytesIO) (caption : str) : M Message :=
  call (ReplyPhoto photo caption) (world_reply_photo w photo caption).
Definition delete (w : World) (m : Message) : M unit :=
  call (Delete m) (world_delete w m).
Definition edit_text (w : World) (m : Message) (text : str) : M Message :=
  call (EditText m text) (world_edit_text w m text).
Definition logger_error (msg : str) : M unit := ([LogError msg], Returned tt).

(** [int(x)] of a float: truncation towards zero. *)
Definition int (x : Q) : Z := Z.quot (Qnum x) (Z.pos (Qden x)).

(** ** The handlers *)

Definition AttributeError (msg : string) : exn :=
  {| exn_str := lit msg; exn_is_Exception := true |}.

(** [update.message.<attr>] for an update that may have no message. *)
Definition update_message (update : Update) (attr : string) : M IncomingMessage :=
  match message update with
  | Some msg => ret msg
  | None =>
      raise (AttributeError ("'NoneType' object has no attribute '" ++ attr ++ "'"))
  end.

Definition provide_description_text : str :=
  lit "Please provide a description after /generate".

(** U+1F3A8 (artist palette), then the ASCII text. *)
Definition generating_text : str :=
  0x1F3A8 :: lit " Generating your image... Please wait!".

(** The caption: U+1F3A8, the fixed text, the prompt between single quotes. *)
Definition caption_for (prompt : str) : str :=
  (0x1F3A8 :: lit " Generated image for: '") ++ prompt ++ lit "'".

(** U+274C (cross mark), then the ASCII text. *)
Definition generation_error_text : str :=
  0x274C :: lit " Sorry, there was an error generating your image. Please try again later.".

Definition something_went_wrong_text : str :=
  lit "Sorry, something went wrong. Please try again later.".

Definition error_generating_log (e : exn) : str :=
  lit "Error generating image: " ++ exn_str e.

(** How a loop body or a block ends: it falls through to what follows, or it
    has executed [return]. *)
Inductive flow := FallThrough | Return.

(** [for artifact in resp.artifacts: ...] (lines 101-112) *)
Fixpoint for_artifacts (w : World) (prompt : str) (status_message : Message)
    (l : list Artifact) : M flow :=
  match l with
  | [] => ret FallThrough
  | artifact :: l' =>
      if ArtifactType_eqb (type artifact) ARTIFACT_IMAGE then
        let img := BytesIO_new (binary artifact) in
        let img := seek img 0 in
        reply_photo w img (caption_for prompt) ;;;
        delete w status_message ;;;
        ret Return
      else for_artifacts w prompt status_message l'
  end.

(** [for resp in answers: ...] (lines 100-112) *)
Fixpoint for_answers (w : World) (prompt : str) (status_message : Message)
    (answers : Answers) : M flow :=
  match answers with
  | StopIteration => ret FallThrough
  | IterRaise e => raise e
  | Yield resp rest =>
      f <- for_artifacts w prompt status_message (artifacts resp) ;;
      match f with
      | Return => ret Return
      | FallThrough => for_answers w prompt status_message rest
      end
  end.

Definition generation_request (w : World) (prompt : str) : GenerationRequest :=
  {| prompt := prompt;
     seed := int (time_time w);
     steps := 30;
     cfg_scale := 7;
     width := 512;
     height := 512;
     samples := 1;
     sampler := SAMPLER_K_DPMPP_2M |}.

(** The body of the [try] (lines 87-112). *)
Definition try_body (w : World) (prompt : str) (status_message : Message) : M flow :=
  answers <- generate w (generation_request w prompt) ;;
  for_answers w prompt status_message answers.

(** The [except Exception as e] branch (lines 115-116). *)
Definition except_body (w : World) (status_message : Message) (e : exn) : M flow :=
  logger_error (error_generating_log e) ;;;
  edit_text w status_message generation_error_text ;;;
  ret FallThrough.

Definition handle_text (w : World) (update : Update) : M unit :=
  msg <- update_message update "text" ;;
  let message_text := text msg in
  if startswith message_text (lit "/generate ") then
    let prompt := strip (skipn 9 message_text) in
    if negb (truthy prompt) then
      reply_text w provide_description_text ;;;
      ret tt
    else
      status_message <- reply_text w generating_text ;;
      try_except_Exception (try_body w prompt status_message)
                           (except_body w status_message) ;;;
      ret tt
  else ret tt.

Definition format_update (update : option Update) : str :=
  match update with
  | Some u => update_str u
  | None => lit "None"
  end.

Definition error_handler_log (update : option Update) (error : exn) : str :=
  lit "Update " ++ format_update update ++ lit " caused error " ++ exn_str error.

Definition error_handler (w : World) (update : option Update) (context_error : exn)
    : M unit :=
  logger_error (error_handler_log update context_error) ;;;
  try_except
    (match update with
     | Some u =>
         update_message u "reply_text" ;;;
         reply_text w something_went_wrong_text ;;;
         ret tt
     | None =>
         raise (AttributeError "'NoneType' object has no attribute 'message'")
     end)
    (ret tt).

(** ** The command responders (lines 33-70) *)

(** The welcome text of [start]: adjacent literals, [\n] is code point 10;
    U+1F3A8, U+1F31F, U+1F3AF, U+1F5BC and U+2728 are the pictographs. *)
Definition welcome_message : str :=
  (0x1F3A8 :: lit " Welcome to DreamWeaver AI! ") ++ [0x1F31F; 10; 10]
  ++ lit "I'm your creative companion, ready to transform your imagination into stunning images. "
  ++ lit "Here's what I can do:" ++ [10; 10]
  ++ (0x1F3AF :: lit " Generate unique images from your text descriptions") ++ [10]
  ++ (0x1F5BC :: lit " Create artistic interpretations of your ideas") ++ [10]
  ++ (0x2728 :: lit " Transform your concepts into visual reality") ++ [10; 10]
  ++ lit "To get started, simply:" ++ [10]
  ++ lit "1. Use /generate command" ++ [10]
  ++ lit "2. Type your detailed image description" ++ [10]
  ++ lit "3. Wait for the magic to happen!" ++ [10; 10]
  ++ lit "Example: /generate a magical forest with glowing butterflies at sunset".

(** The help text of [help_command]; U+1F916 and U+1F31F are pictographs,
    U+2022 is the bullet. *)
Definition help_text : str :=
  (0x1F916 :: lit " DreamWeaver AI Help Guide ") ++ [0x1F31F; 10; 10]
  ++ lit "Commands:" ++ [10]
  ++ lit "/start - Start the bot and see welcome message" ++ [10]
  ++ lit "/generate - Create an image from your text description" ++ [10]
  ++ lit "/help - Show this help message" ++ [10; 10]
  ++ lit "Tips for better results:" ++ [10]
  ++ (0x2022 :: lit " Be specific in your descriptions") ++ [10]
  ++ (0x2022 :: lit " Include details about style, mood, and lighting") ++ [10]
  ++ (0x2022 :: lit " Mention colors and composition preferences").

Definition enter_description_text : str :=
  (0x1F3A8 :: lit " Please enter your image description after /generate.") ++ [10]
  ++ lit "Example: /generate sunset over mountain peaks with northern lights".

Definition start (w : World) (update : Update) : M unit :=
  update_message update "reply_text" ;;;
  reply_text w welcome_message ;;;
  ret tt.

Definition help_command (w : World) (update : Update) : M unit :=
  update_message update "reply_text" ;;;
  reply_text w help_text ;;;
  ret tt.

Definition generate_command (w : World) (update : Update) : M unit :=
  update_message update "reply_text" ;;;
  reply_text w enter_description_text ;;;
  ret tt.

(** ** Reading a trace *)

Definition outcome_of {A} (r : exn + A) : outcome :=
  match r with inr _ => Ok | inl e => Err e end.

(** The result of a handler whose last action is the call answered by [r]. *)
Definition result_of {A} (r : exn + A) : result unit :=
  match r with inr _ => Returned tt | inl e => Raised e end.

(** The requests of the remote calls in a trace, in order. *)
Definition generate_calls (t : list event) : list GenerationRequest :=
  flat_map (fun ev => match ev with Generate req _ => [req] | _ => [] end) t.

(** The photo replies in a trace, in order. *)
Definition photo_replies (t : list event) : list (BytesIO * str * outcome) :=
  flat_map (fun ev =>
              match ev with
              | ReplyPhoto photo caption o => [(photo, caption, o)]
              | _ => []
              end) t.

Definition is_image (a : Artifact) : bool :=
  ArtifactType_eqb (type a) ARTIFACT_IMAGE.

(** The first image artifact in iteration order of a list of entries. *)
Definition first_image (entries : list Answer) : option Artifact :=
  find is_image (flat_map artifacts entries).

(** The first image artifact the iteration of [answers] reaches before it
    ends or raises. *)
Fixpoint first_image_reached (answers : Answers) : option Artifact :=
  match answers with
  | StopIteration => None
  | IterRaise _ => None
  | Yield resp rest =>
      match find is_image (artifacts resp) with
      | Some a => Some a
      | None => first_image_reached rest
      end
  end.

(** What the loop does at an image artifact (lines 103-112). *)
Definition send_image (w : World) (prompt : str) (status_message : Message)
    (a : Artifact) : M flow :=
  reply_photo w (seek (BytesIO_new (binary a)) 0) (caption_for prompt) ;;;
  delete w status_message ;;;
  ret Return.

(** How the iteration of [answers] ends when it is run to its end: the
    loop falls through, or the iteration raises. *)
Fixpoint iteration_end (answers : Answers) : result flow :=
  match answers with
  | StopIteration => Returned FallThrough
  | IterRaise e => Raised e
  | Yield _ rest => iteration_end rest
  end.

(** The iteration of [answers] raises instances of [Exception] only. *)
Fixpoint iteration_raises_Exception_only (answers : Answers) : Prop :=
  match answers with
  | StopIteration => True
  | IterRaise e => exn_is_Exception e = true
  | Yield _ rest => iteration_raises_Exception_only rest
  end.

(** Whatever the service and the sending or deleting of messages raise in
    [w] is an instance of [Exception]. *)
Definition raises_Exception_only (w : World) : Prop :=
  (forall req e, world_generate w req = inl e -> exn_is_Exception e = true)
  /\ (forall req answers, world_generate w req = inr answers ->
                          iteration_raises_Exception_only answers)
  /\ (forall photo caption e, world_reply_photo w photo caption = inl e ->
                              exn_is_Exception e = true)
  /\ (forall m e, world_delete w m = inl e -> exn_is_Exception e = true).

(** The entries of a response without their artifacts of other types. *)
Definition images_only (entries : list Answer) : list Answer :=
  map (fun resp => {| artifacts := filter is_image (artifacts resp) |}) entries.

(** ** Sample worlds and updates *)

Module Samples.

Definition text_update (s : string) : Update :=
  {| update_str := lit "<update>"; message := Some {| text := lit s |} |}.

Definition RuntimeError (s : string) : exn :=
  {| exn_str := lit s; exn_is_Exception := true |}.

Definition image1 : Artifact := {| type := ARTIFACT_IMAGE; binary := [x89; x50; x4e; x47] |}.
Definition image2 : Artifact := {| type := ARTIFACT_IMAGE; binary := [xff; xd8] |}.
Definition other1 : Artifact := {| type := ARTIFACT_OTHER; binary := [x00] |}.

Definition status1 : Message := {| message_id := 101 |}.
Definition photo1 : Message := {| message_id := 102 |}.

(** Two entries, the second with two images, then the iteration raises. *)
Definition answers_two_images : Answers :=
  yield_all [ {| artifacts := [other1] |};
              {| artifacts := [other1; image1; image2] |} ]
            (IterRaise (RuntimeError "stream closed")).

Definition answers_no_image : Answers :=
  yield_all [ {| artifacts := [other1] |}; {| artifacts := [] |} ] StopIteration.

(** Every call succeeds; the service answers [answers]. *)
Definition world_ok (answers : Answers) : World :=
  {| time_time := (17000000005 # 10)%Q;
     world_reply_text := fun _ => inr status1;
     world_generate := fun _ => inr answers;
     world_reply_photo := fun _ _ => inr photo1;
     world_delete := fun _ => inr tt;
     world_edit_text := fun m _ => inr m |}.

(** The transport refuses every text reply. *)
Definition world_reply_fails : World :=
  {| time_time := (17000000005 # 10)%Q;
     world_reply_text := fun _ => inl (RuntimeError "Forbidden: bot was blocked by the user");
     world_generate := fun _ => inr answers_two_images;
     world_reply_photo := fun _ _ => inr photo1;
     world_delete := fun _ => inr tt;
     world_edit_text := fun m _ => inr m |}.

(** The photo cannot be sent. *)
Definition world_photo_fails : World :=
  {| time_time := (17000000005 # 10)%Q;
     world_reply_text := fun _ => inr status1;
     world_generate := fun _ => inr answers_two_images;
     world_reply_photo := fun _ _ => inl (RuntimeError "Timed out");
     world_delete := fun _ => inr tt;
     world_edit_text := fun m _ => inr m |}.

(** The status message cannot be deleted. *)
Definition world_delete_fails : World :=
  {| time_time := (17000000005 # 10)%Q;
     world_reply_text := fun _ => inr status1;
     world_generate := fun _ => inr answers_two_images;
     world_reply_photo := fun _ _ => inr photo1;
     world_delete := fun _ => inl (RuntimeError "Message can't be deleted");
     world_edit_text := fun m _ => inr m |}.

(** The remote call raises; the edit of the status message succeeds. *)
Definition world_generate_fails : World :=
  {| time_time := (17000000005 # 10)%Q;
     world_reply_text := fun _ => inr status1;
     world_generate := fun _ => inl (RuntimeError "UNAUTHENTICATED");
     world_reply_photo := fun _ _ => inr photo1;
     world_delete := fun _ => inr tt;
     world_edit_text := fun m _ => inr m |}.

(** The remote call raises, and so does the edit of the status message. *)
Definition world_generate_and_edit_fail : World :=
  {| time_time := (17000000005 # 10)%Q;
     world_reply_text := fun _ => inr status1;
     world_generate := fun _ => inl (RuntimeError "UNAUTHENTICATED");
     world_reply_photo := fun _ _ => inr photo1;
     world_delete := fun _ => inr tt;
     world_edit_text := fun _ _ => inl (RuntimeError "Timed out") |}.

(** A signal that is not an [Exception] (its class derives from
    [BaseException] only). *)
Definition KeyboardInterrupt : exn :=
  {| exn_str := []; exn_is_Exception := false |}.

(** The remote call is interrupted. *)
Definition world_generate_interrupted : World :=
  {| time_time := (17000000005 # 10)%Q;
     world_reply_text := fun _ => inr status1;
     world_generate := fun _ => inl KeyboardInterrupt;
     world_reply_photo := fun _ _ => inr photo1;
     world_delete := fun _ => inr tt;
     world_edit_text := fun m _ => inr m |}.

(** One entry without image, then the iteration raises. *)
Definition answers_raise_early : Answers :=
  yield_all [ {| artifacts := [other1] |} ] (IterRaise (RuntimeError "stream closed")).

(** An update without a message (an edited message, a channel post). *)
Definition update_without_message : Update :=
  {| update_str := lit "<update>"; message := None |}.

(** Every call succeeds, four tenths of a second after [world_ok]. *)
Definition world_ok_later (answers : Answers) : World :=
  {| time_time := (17000000009 # 10)%Q;
     world_reply_text := fun _ => inr status1;
     world_generate := fun _ => inr answers;
     world_reply_photo := fun _ _ => inr photo1;
     world_delete := fun _ => inr tt;
     world_edit_text := fun m _ => inr m |}.

(** The deletion of the status message is interrupted. *)
Definition world_delete_interrupted : World :=
  {| time_time := (17000000005 # 10)%Q;
     world_reply_text := fun _ => inr status1;
     world_generate := fun _ => inr answers_two_images;
     world_reply_photo := fun _ _ => inr photo1;
     world_delete := fun _ => inl KeyboardInterrupt;
     world_edit_text := fun m _ => inr m |}.

End Samples.

(** ** Proof steps *)


(** ** Strings *)

Lemma startswith_app (p r : str) : startswith (p ++ r) p = true.
Proof.
  induction p as [|c p IH]; simpl; [reflexivity|].
  now rewrite N.eqb_refl, IH.
Qed.

Lemma startswith_inv (p s : str) :
  startswith s p = true -> exists r, s = p ++ r.
Proof.
  revert s; induction p as [|c p IH]; intros s H; simpl in *.
  - now exists s.
  - destruct s as [|d s]; [discriminate|].
    apply andb_prop in H as [Hc Hs].
    apply N.eqb_eq in Hc; subst d.
    destruct (IH _ Hs) as [r ->]. now exists r.
Qed.

(** [message_text[9:]] keeps the blank that ends the prefix; [strip] removes
    it again. *)
Lemma strip_slice_9 (rest : str) :
  strip (skipn 9 (lit "/generate " ++ rest)) = strip rest.
Proof. reflexivity. Qed.

Lemma lstrip_spec (s : str) :
  exists ws, s = ws ++ lstrip s /\ forallb isspace ws = true
             /\ match lstrip s with c :: _ => isspace c = false | [] => True end.
Proof.
  induction s as [|c s (ws & E & W & L)]; simpl.
  - exists []; auto.
  - destruct (isspace c) eqn:Hc.
    + exists (c :: ws); simpl; rewrite Hc, W, <- E; auto.
    + exists []; simpl; auto.
Qed.

Lemma lstrip_blank (s : str) : forallb isspace s = true -> lstrip s = [].
Proof.
  induction s as [|c s IH]; simpl; [reflexivity|].
  intros H; apply andb_prop in H as [-> Hs]; auto.
Qed.

Lemma lstrip_nil_blank (s : str) : lstrip s = [] -> forallb isspace s = true.
Proof.
  induction s as [|c s IH]; simpl; [reflexivity|].
  destruct (isspace c); [auto | discriminate].
Qed.

Lemma forallb_rev {A} (f : A -> bool) (l : list A) :
  forallb f (rev l) = forallb f l.
Proof.
  induction l as [|x l IH]; simpl; [reflexivity|].
  rewrite forallb_app, IH; simpl. rewrite andb_true_r. apply andb_comm.
Qed.

(** [strip] trims: the string is white space, the stripped string, white
    space; and the stripped string neither starts nor ends with white space. *)
Lemma strip_spec (s : str) :
  exists l r, s = l ++ strip s ++ r
    /\ forallb isspace l = true /\ forallb isspace r = true
    /\ match strip s with c :: _ => isspace c = false | [] => True end
    /\ match rev (strip s) with c :: _ => isspace c = false | [] => True end.
Proof.
  unfold strip, rstrip.
  destruct (lstrip_spec s) as (l & El & Wl & Hl).
  destruct (lstrip_spec (rev (lstrip s))) as (r & Er & Wr & Hr).
  exists l, (rev r). rewrite rev_involutive.
  assert (E : lstrip s = rev (lstrip (rev (lstrip s))) ++ rev r).
  { rewrite <- rev_app_distr, <- Er. now rewrite rev_involutive. }
  repeat split.
  - now rewrite <- E.
  - exact Wl.
  - now rewrite forallb_rev.
  - destruct (rev (lstrip (rev (lstrip s)))) as [|c u] eqn:Eu; [exact I|].
    simpl in E. rewrite E in Hl. exact Hl.
  - exact Hr.
Qed.

(** The stripped string is empty exactly when the string is empty or white
    space only. *)
Lemma strip_nil_iff (s : str) : strip s = [] <-> forallb isspace s = true.
Proof.
  split.
  - intros H. destruct (strip_spec s) as (l & r & E & Wl & Wr & _).
    rewrite H in E. rewrite E, forallb_app, Wl. exact Wr.
  - intros H. unfold strip. now rewrite (lstrip_blank s H).
Qed.

(** [strip] on small inputs: blanks, tabs and newlines go, inner blanks
    stay; U+00A0 and U+3000 are white space, U+200B is not. *)
Example strip_ascii : strip (lit "  a cat ") = lit "a cat".
Proof. reflexivity. Qed.

Example strip_unicode_space : strip [0xA0; 0x3000; 99; 0x2009; 0x85] = [99].
Proof. reflexivity. Qed.

Example strip_zero_width_space : strip [0x200B; 99; 0x200B] = [0x200B; 99; 0x200B].
Proof. reflexivity. Qed.

Example startswith_bare_command :
  startswith (lit "/generate") (lit "/generate ") = false.
Proof. reflexivity. Qed.

Example int_truncates : int (17000000005 # 10) = 1700000000%Z.
Proof. reflexivity. Qed.

(** ** The loops *)

Lemma find_app {A} (f : A -> bool) (l1 l2 : list A) :
  find f (l1 ++ l2) =
  match find f l1 with Some x => Some x | None => find f l2 end.
Proof.
  induction l1 as [|x l1 IH]; simpl; [reflexivity|].
  now destruct (f x).
Qed.

Lemma bind_ret_l {A B} (a : A) (f : A -> M B) : bind (ret a) f = f a.
Proof. unfold bind, ret. now destruct (f a). Qed.

Lemma for_artifacts_no_image w p m (l : list Artifact) :
  find is_image l = None -> for_artifacts w p m l = ret FallThrough.
Proof.
  induction l as [|a l IH]; simpl; [reflexivity|].
  unfold is_image at 1. destruct (ArtifactType_eqb (type a) ARTIFACT_IMAGE).
  - discriminate.
  - exact IH.
Qed.

Lemma for_artifacts_image w p m (l : list Artifact) a :
  find is_image l = Some a -> for_artifacts w p m l = send_image w p m a.
Proof.
  induction l as [|b l IH]; simpl; [discriminate|].
  unfold is_image at 1. destruct (ArtifactType_eqb (type b) ARTIFACT_IMAGE).
  - intros [= ->]. reflexivity.
  - exact IH.
Qed.

(** After an image the loop over the entries is left at once. *)
Lemma send_image_leaves w p m a (k : M flow) :
  (f <- send_image w p m a ;;
   match f with Return => ret Return | FallThrough => k end)
  = send_image w p m a.
Proof.
  unfold send_image, reply_photo, delete, call, bind, ret.
  destruct (world_reply_photo w _ _); [reflexivity|].
  destruct (world_delete w m); [reflexivity|].
  simpl. now destruct k.
Qed.

Lemma for_answers_reached w p m (answers : Answers) a :
  first_image_reached answers = Some a ->
  for_answers w p m answers = send_image w p m a.
Proof.
  induction answers as [|resp rest IH|e]; simpl; try discriminate.
  destruct (find is_image (artifacts resp)) as [b|] eqn:F.
  - intros [= ->]. rewrite (for_artifacts_image _ _ _ _ _ F).
    apply send_image_leaves.
  - intros H. rewrite (for_artifacts_no_image _ _ _ _ F), bind_ret_l. auto.
Qed.

(** Where the iteration reaches no image, the loops call nothing. *)
Lemma for_answers_silent w p m (answers : Answers) :
  first_image_reached answers = None ->
  fst (for_answers w p m answers) = [].
Proof.
  induction answers as [|resp rest IH|e]; simpl; try reflexivity.
  destruct (find is_image (artifacts resp)) as [b|] eqn:F; [discriminate|].
  intros H. rewrite (for_artifacts_no_image _ _ _ _ F), bind_ret_l. auto.
Qed.

Lemma first_image_reached_yield_all entries tail :
  first_image_reached (yield_all entries tail) =
  match first_image entries with
  | Some a => Some a
  | None => first_image_reached tail
  end.
Proof.
  unfold first_image.
  induction entries as [|resp entries IH]; simpl; [reflexivity|].
  rewrite find_app. destruct (find is_image (artifacts resp)); auto.
Qed.

(** The entries and artifacts after the first image are not looked at:
    whatever follows, the loop does the same. *)
Lemma for_answers_first_image w p m entries tail a :
  first_image entries = Some a ->
  for_answers w p m (yield_all entries tail) = send_image w p m a.
Proof.
  intros H. apply for_answers_reached.
  now rewrite first_image_reached_yield_all, H.
Qed.

Lemma for_answers_no_image w p m entries :
  first_image entries = None ->
  for_answers w p m (yield_all entries StopIteration) = ret FallThrough.
Proof.
  unfold first_image.
  induction entries as [|resp entries IH]; simpl; [reflexivity|].
  rewrite find_app.
  destruct (find is_image (artifacts resp)) eqn:F; [discriminate|].
  intros H. rewrite (for_artifacts_no_image _ _ _ _ F), bind_ret_l. auto.
Qed.

Lemma is_image_true a : is_image a = true <-> type a = ARTIFACT_IMAGE.
Proof. unfold is_image. destruct (type a); simpl; split; congruence. Qed.

(** A response has an image artifact in some entry exactly when
    [first_image] finds one; what it finds is an image. *)
Lemma first_image_exists entries :
  Exists (fun resp => Exists (fun a => type a = ARTIFACT_IMAGE) (artifacts resp)) entries
  <-> exists a, first_image entries = Some a.
Proof.
  unfold first_image. split.
  - intros H. apply Exists_exists in H as (resp & Hin & Ha).
    apply Exists_exists in Ha as (a & Hina & Ht).
    destruct (find is_image (flat_map artifacts entries)) as [b|] eqn:F; [now exists b|].
    exfalso. apply is_image_true in Ht.
    rewrite (find_none _ _ F a) in Ht; [discriminate|].
    apply in_flat_map. now exists resp.
  - intros [a F]. apply find_some in F as [Hin Ht].
    apply in_flat_map in Hin as (resp & Hr & Ha).
    apply Exists_exists. exists resp. split; [exact Hr|].
    apply Exists_exists. exists a. split; [exact Ha|]. now apply is_image_true.
Qed.

Lemma first_image_is_image entries a :
  first_image entries = Some a -> type a = ARTIFACT_IMAGE.
Proof. intros F. apply find_some in F as [_ Ht]. now apply is_image_true. Qed.

Lemma first_image_none entries :
  Forall (fun resp => Forall (fun a => type a <> ARTIFACT_IMAGE) (artifacts resp)) entries
  -> first_image entries = None.
Proof.
  intros H. destruct (first_image entries) as [a|] eqn:F; [|reflexivity].
  exfalso. pose proof (first_image_is_image _ _ F) as Ht.
  apply find_some in F as [Hin _].
  apply in_flat_map in Hin as (resp & Hr & Ha).
  rewrite Forall_forall in H. specialize (H _ Hr).
  rewrite Forall_forall in H. exact (H _ Ha Ht).
Qed.

(** ** [handle_text], branch by branch *)

Lemma handle_text_generate_branch w update msg rest :
  message update = Some msg ->
  text msg = lit "/generate " ++ rest ->
  handle_text w update =
  if negb (truthy (strip rest)) then
    reply_text w provide_description_text ;;; ret tt
  else
    status_message <- reply_text w generating_text ;;
    try_except_Exception (try_body w (strip rest) status_message)
                         (except_body w status_message) ;;;
    ret tt.
Proof.
  intros Hm Ht. unfold handle_text, update_message.
  rewrite Hm, bind_ret_l. cbv zeta.
  rewrite Ht, startswith_app, strip_slice_9. reflexivity.
Qed.

(** The status reply is outside the [try]: when it raises, the handler
    raises. *)
Lemma handle_text_status_raises w update msg rest e :
  message update = Some msg ->
  text msg = lit "/generate " ++ rest ->
  strip rest <> [] ->
  world_reply_text w generating_text = inl e ->
  handle_text w update = ([ReplyText generating_text (Err e)], Raised e).
Proof.
  intros Hm Ht Hp Hs. rewrite (handle_text_generate_branch _ _ _ _ Hm Ht).
  destruct (strip rest); [congruence|]. simpl.
  unfold reply_text, call. rewrite Hs. reflexivity.
Qed.

(** The [try] returns: the status reply and the trace of the [try]. *)
Lemma handle_text_try_returns w update msg rest m t f :
  message update = Some msg ->
  text msg = lit "/generate " ++ rest ->
  strip rest <> [] ->
  world_reply_text w generating_text = inr m ->
  try_body w (strip rest) m = (t, Returned f) ->
  handle_text w update = (ReplyText generating_text Ok :: t, Returned tt).
Proof.
  intros Hm Ht Hp Hs Hb. rewrite (handle_text_generate_branch _ _ _ _ Hm Ht).
  destruct (strip rest) eqn:E; [congruence|]. simpl negb. cbv iota.
  unfold reply_text, call. rewrite Hs. unfold bind at 1.
  rewrite Hb. simpl. now rewrite app_nil_r.
Qed.

(** The [try] raises an [Exception]: the [except] branch logs it and edits
    the status message, and the handler ends as that edit ends. *)
Lemma handle_text_try_raises w update msg rest m t e :
  message update = Some msg ->
  text msg = lit "/generate " ++ rest ->
  strip rest <> [] ->
  world_reply_text w generating_text = inr m ->
  try_body w (strip rest) m = (t, Raised e) ->
  exn_is_Exception e = true ->
  handle_text w update =
  (ReplyText generating_text Ok :: t ++
     [LogError (error_generating_log e);
      EditText m generation_error_text
               (outcome_of (world_edit_text w m generation_error_text))],
   result_of (world_edit_text w m generation_error_text)).
Proof.
  intros Hm Ht Hp Hs Hb He. rewrite (handle_text_generate_branch _ _ _ _ Hm Ht).
  destruct (strip rest) eqn:E; [congruence|]. simpl negb. cbv iota.
  unfold reply_text, call. rewrite Hs. unfold bind at 1.
  rewrite Hb. unfold try_except_Exception. rewrite He.
  unfold except_body, logger_error, edit_text, call.
  destruct (world_edit_text w m generation_error_text); simpl;
    now rewrite ?app_nil_r.
Qed.

(** ** The trace of the [try] and of the handler *)

Lemma send_image_trace w p m a :
  fst (send_image w p m a) =
  let photo := {| buffer := binary a; position := 0 |} in
  ReplyPhoto photo (caption_for p) (outcome_of (world_reply_photo w photo (caption_for p)))
  :: match world_reply_photo w photo (caption_for p) with
     | inr _ => [Delete m (outcome_of (world_delete w m))]
     | inl _ => []
     end.
Proof.
  unfold send_image, reply_photo, delete, call, bind, ret, seek, BytesIO_new.
  simpl. destruct (world_reply_photo w _ _); [reflexivity|].
  destruct (world_delete w m); reflexivity.
Qed.

Lemma for_answers_trace w p m answers :
  fst (for_answers w p m answers) =
  match first_image_reached answers with
  | Some a => fst (send_image w p m a)
  | None => []
  end.
Proof.
  destruct (first_image_reached answers) as [a|] eqn:F.
  - now rewrite (for_answers_reached _ _ _ _ _ F).
  - now apply for_answers_silent.
Qed.

Lemma fst_bind {A B} (m : M A) (f : A -> M B) :
  fst (bind m f) =
  fst m ++ match snd m with Returned a => fst (f a) | Raised _ => [] end.
Proof.
  destruct m as [t [a|e]]; simpl.
  - now destruct (f a).
  - now rewrite app_nil_r.
Qed.

Lemma try_body_trace w p m :
  fst (try_body w p m) =
  Generate (generation_request w p)
           (outcome_of (world_generate w (generation_request w p)))
  :: match world_generate w (generation_request w p) with
     | inr answers => fst (for_answers w p m answers)
     | inl _ => []
     end.
Proof.
  unfold try_body. rewrite fst_bind. unfold generate, call.
  destruct (world_generate w _); reflexivity.
Qed.

Lemma fst_try_except_Exception {A} (body : M A) handler :
  fst (try_except_Exception body handler) =
  fst body ++ match snd body with
              | Raised e => if exn_is_Exception e then fst (handler e) else []
              | Returned _ => []
              end.
Proof.
  destruct body as [t [a|e]]; simpl.
  - now rewrite app_nil_r.
  - destruct (exn_is_Exception e); [now destruct (handler e)|].
    now rewrite app_nil_r.
Qed.

Lemma except_body_trace w m e :
  fst (except_body w m e) =
  [LogError (error_generating_log e);
   EditText m generation_error_text
            (outcome_of (world_edit_text w m generation_error_text))].
Proof.
  unfold except_body, logger_error, edit_text, call.
  destruct (world_edit_text w m _); reflexivity.
Qed.

(** The whole trace of a generate message with a prompt. *)
Lemma handle_text_trace w update msg rest :
  message update = Some msg ->
  text msg = lit "/generate " ++ rest ->
  strip rest <> [] ->
  fst (handle_text w update) =
  ReplyText generating_text (outcome_of (world_reply_text w generating_text))
  :: match world_reply_text w generating_text with
     | inl _ => []
     | inr m =>
         fst (try_body w (strip rest) m) ++
         match snd (try_body w (strip rest) m) with
         | Raised e =>
             if exn_is_Exception e
             then [LogError (error_generating_log e);
                   EditText m generation_error_text
                            (outcome_of (world_edit_text w m generation_error_text))]
             else []
         | Returned _ => []
         end
     end.
Proof.
  intros Hm Ht Hp. rewrite (handle_text_generate_branch _ _ _ _ Hm Ht).
  destruct (strip rest) eqn:E; [congruence|]. simpl negb. cbv iota.
  rewrite fst_bind. unfold reply_text at 1 2, call.
  destruct (world_reply_text w generating_text) as [e|m]; [reflexivity|].
  simpl. f_equal. rewrite fst_bind, fst_try_except_Exception.
  rewrite <- app_assoc. f_equal.
  destruct (try_body w (n :: s) m) as [t [f|e]]; simpl; [reflexivity|].
  destruct (exn_is_Exception e) eqn:He; simpl.
  - rewrite except_body_trace.
    destruct (except_body w m e) as [t' [f|e']]; reflexivity.
  - reflexivity.
Qed.

Lemma generate_calls_app t1 t2 :
  generate_calls (t1 ++ t2) = generate_calls t1 ++ generate_calls t2.
Proof. apply flat_map_app. Qed.


(** The loops issue no remote call. *)
Lemma for_answers_generate_calls w p m answers :
  generate_calls (fst (for_answers w p m answers)) = [].
Proof.
  rewrite for_answers_trace.
  destruct (first_image_reached answers) as [a|]; [|reflexivity].
  rewrite send_image_trace. simpl.
  now destruct (world_reply_photo w _ _).
Qed.

Lemma try_body_generate_calls w p m :
  generate_calls (fst (try_body w p m)) = [generation_request w p].
Proof.
  rewrite try_body_trace. simpl. f_equal.
  destruct (world_generate w _); [reflexivity|].
  apply for_answers_generate_calls.
Qed.

Lemma try_body_photo_replies w p m :
  (List.length (photo_replies (fst (try_body w p m))) <= 1)%nat.
Proof.
  rewrite try_body_trace. simpl.
  destruct (world_generate w _) as [e|answers]; simpl; [lia|].
  rewrite for_answers_trace.
  destruct (first_image_reached answers) as [a|]; simpl; [|lia].
  rewrite send_image_trace. simpl.
  destruct (world_reply_photo w _ _); simpl; lia.
Qed.

Lemma handle_text_generate_calls w update msg rest :
  message update = Some msg ->
  text msg = lit "/generate " ++ rest ->
  strip rest <> [] ->
  generate_calls (fst (handle_text w update)) =
  match world_reply_text w generating_text with
  | inr _ => [generation_request w (strip rest)]
  | inl _ => []
  end.
Proof.
  intros Hm Ht Hp. rewrite (handle_text_trace _ _ _ _ Hm Ht Hp). simpl.
  destruct (world_reply_text w generating_text) as [e|m]; [reflexivity|].
  rewrite generate_calls_app, try_body_generate_calls. simpl. f_equal.
  destruct (snd (try_body w (strip rest) m)) as [f|e]; [reflexivity|].
  now destruct (exn_is_Exception e).
Qed.


(** Outside the generate branch with a prompt, the trace holds at most one
    text reply and nothing else. *)
Lemma handle_text_quiet w update :
  (forall msg rest, message update = Some msg ->
                    text msg = lit "/generate " ++ rest -> strip rest = []) ->
  generate_calls (fst (handle_text w update)) = []
  /\ photo_replies (fst (handle_text w update)) = [].
Proof.
  intros H. unfold handle_text, update_message.
  destruct (message update) as [msg|] eqn:Hm; [|split; reflexivity].
  rewrite bind_ret_l. cbv zeta.
  destruct (startswith (text msg) (lit "/generate ")) eqn:Hs; [|split; reflexivity].
  destruct (startswith_inv _ _ Hs) as [rest Ht].
  rewrite Ht, strip_slice_9, (H msg rest eq_refl Ht). simpl.
  unfold reply_text, call.
  destruct (world_reply_text w provide_description_text); split; reflexivity.
Qed.

Lemma handle_text_cases (update : Update) :
  (forall msg rest, message update = Some msg ->
                    text msg = lit "/generate " ++ rest -> strip rest = [])
  \/ (exists msg rest, message update = Some msg
                       /\ text msg = lit "/generate " ++ rest /\ strip rest <> []).
Proof.
  destruct (message update) as [msg|]; [|left; discriminate].
  destruct (startswith (text msg) (lit "/generate ")) eqn:Hs.
  - destruct (startswith_inv _ _ Hs) as [rest Ht].
    destruct (strip rest) eqn:E.
    + left. intros msg' rest' [= <-] Ht'. rewrite Ht in Ht'.
      apply app_inv_head in Ht'. now subst rest'.
    + right. exists msg, rest. repeat split; congruence.
  - left. intros msg' rest' [= <-] Ht'.
    rewrite Ht', startswith_app in Hs. discriminate.
Qed.

Lemma In_generate_calls req o t :
  In (Generate req o) t -> In req (generate_calls t).
Proof.
  intros H. apply in_flat_map. exists (Generate req o). simpl. auto.
Qed.

(** When the remote call raises, so does the [try]. *)
Lemma try_body_generate_raises w p m e :
  world_generate w (generation_request w p) = inl e ->
  try_body w p m = ([Generate (generation_request w p) (Err e)], Raised e).
Proof. intros H. unfold try_body, generate, call. now rewrite H. Qed.

(** When the iteration of the response raises before an image is reached,
    so does the [try]. *)
Lemma try_body_iteration_raises w p m entries e :
  world_generate w (generation_request w p) = inr (yield_all entries (IterRaise e)) ->
  first_image entries = None ->
  try_body w p m = ([Generate (generation_request w p) Ok], Raised e).
Proof.
  intros H F. unfold try_body, generate, call. rewrite H.
  assert (L : for_answers w p m (yield_all entries (IterRaise e)) = raise e).
  { clear H. unfold first_image in F.
    induction entries as [|resp entries IH]; simpl in *; [reflexivity|].
    rewrite find_app in F.
    destruct (find is_image (artifacts resp)) eqn:Fa; [discriminate|].
    rewrite (for_artifacts_no_image _ _ _ _ Fa), bind_ret_l. auto. }
  unfold bind. now rewrite L.
Qed.

(** The [try] at a response with an image: the photo reply, then the
    deletion of the status message, whatever follows the image. *)
Lemma try_body_first_image w p m entries tail a :
  world_generate w (generation_request w p) = inr (yield_all entries tail) ->
  first_image entries = Some a ->
  try_body w p m =
  let photo := {| buffer := binary a; position := 0 |} in
  match world_reply_photo w photo (caption_for p) with
  | inl e =>
      ([Generate (generation_request w p) Ok; ReplyPhoto photo (caption_for p) (Err e)],
       Raised e)
  | inr _ =>
      match world_delete w m with
      | inl e =>
          ([Generate (generation_request w p) Ok; ReplyPhoto photo (caption_for p) Ok;
            Delete m (Err e)], Raised e)
      | inr _ =>
          ([Generate (generation_request w p) Ok; ReplyPhoto photo (caption_for p) Ok;
            Delete m Ok], Returned Return)
      end
  end.
Proof.
  intros H F. unfold try_body, generate, call. rewrite H.
  unfold bind at 1. rewrite (for_answers_first_image _ _ _ _ _ _ F).
  unfold send_image, reply_photo, delete, call, seek, BytesIO_new. simpl.
  destruct (world_reply_photo w _ _); [reflexivity|].
  simpl. destruct (world_delete w m); reflexivity.
Qed.

(** ** The properties of the handlers *)

Import Samples.

(** C1, as the code has it.  For a response whose entries hold an image
    artifact, [a] being the first one in iteration order: when the status
    reply, the photo reply and the deletion of the status message succeed,
    the handler sends the status reply, issues the remote call, sends one
    photo reply whose payload is the bytes of [a] and whose caption is
    U+1F3A8, a blank, [Generated image for: '<prompt>'], deletes the status
    message and returns.  The entries that follow ([tail], which may hold
    more images or raise) have no influence. *)
Theorem handle_text_sends_first_image w update msg rest entries tail a m m' :
  message update = Some msg ->
  text msg = lit "/generate " ++ rest ->
  strip rest <> [] ->
  world_reply_text w generating_text = inr m ->
  world_generate w (generation_request w (strip rest)) = inr (yield_all entries tail) ->
  first_image entries = Some a ->
  world_reply_photo w {| buffer := binary a; position := 0 |}
                    (caption_for (strip rest)) = inr m' ->
  world_delete w m = inr tt ->
  handle_text w update =
  ([ReplyText generating_text Ok;
    Generate (generation_request w (strip rest)) Ok;
    ReplyPhoto {| buffer := binary a; position := 0 |} (caption_for (strip rest)) Ok;
    Delete m Ok],
   Returned tt)
  /\ payload {| buffer := binary a; position := 0 |} = binary a
  /\ caption_for (strip rest)
     = 0x1F3A8 :: lit " Generated image for: '" ++ strip rest ++ lit "'".
Proof.
  intros Hm Ht Hp Hs Hg Hf Hph Hd. split; [|split; reflexivity].
  apply (handle_text_try_returns _ _ _ _ _ _ Return Hm Ht Hp Hs).
  rewrite (try_body_first_image _ _ _ _ _ _ Hg Hf). cbv zeta.
  now rewrite Hph, Hd.
Qed.

Lemma handle_text_sends_first_image_witness :
  handle_text (world_ok answers_two_images) (text_update "/generate  a cat ") =
  ([ReplyText generating_text Ok;
    Generate (generation_request (world_ok answers_two_images) (lit "a cat")) Ok;
    ReplyPhoto {| buffer := [x89; x50; x4e; x47]; position := 0 |}
               (caption_for (lit "a cat")) Ok;
    Delete status1 Ok],
   Returned tt)
  /\ payload {| buffer := [x89; x50; x4e; x47]; position := 0 |} = [x89; x50; x4e; x47]
  /\ caption_for (lit "a cat")
     = 0x1F3A8 :: lit " Generated image for: '" ++ lit "a cat" ++ lit "'".
Proof.
  apply (handle_text_sends_first_image
           (world_ok answers_two_images) (text_update "/generate  a cat ")
           {| text := lit "/generate  a cat " |} (lit " a cat ")
           [ {| artifacts := [other1] |}; {| artifacts := [other1; image1; image2] |} ]
           (IterRaise (RuntimeError "stream closed")) image1 status1 photo1);
    try reflexivity.
  vm_compute. discriminate.
Defined.

(** C1 fails as stated.  Where every call succeeds, no photo reply carries
    the caption [Generated image for: 'cat']: the one that is sent starts
    with U+1F3A8 and a blank.  And where the photo reply raises, no photo is
    delivered and the status message is not deleted but edited. *)
Lemma handle_text_caption_counterexample :
  first_image_reached answers_two_images = Some image1
  /\ photo_replies (fst (handle_text (world_ok answers_two_images)
                                     (text_update "/generate cat")))
     = [({| buffer := binary image1; position := 0 |},
         0x1F3A8 :: lit " Generated image for: 'cat'", Ok)]
  /\ (0x1F3A8 :: lit " Generated image for: 'cat'") <> lit "Generated image for: 'cat'"
  /\ handle_text world_photo_fails (text_update "/generate cat")
     = ([ReplyText generating_text Ok;
         Generate (generation_request world_photo_fails (lit "cat")) Ok;
         ReplyPhoto {| buffer := binary image1; position := 0 |}
                    (caption_for (lit "cat")) (Err (RuntimeError "Timed out"));
         LogError (error_generating_log (RuntimeError "Timed out"));
         EditText status1 generation_error_text Ok],
        Returned tt).
Proof.
  repeat split; try reflexivity. vm_compute. discriminate.
Qed.

(** C2, as the code has it.  For a text that is the generate prefix followed
    by [rest], the trimmed [rest] being a non-empty [P]: when the status
    reply is sent, the handler issues exactly one remote call, whose prompt
    is [P]; when the status reply raises, it issues none.  [P] is what the
    code computes, [message_text[9:].strip()]. *)
Theorem handle_text_one_remote_call w update msg rest P :
  message update = Some msg ->
  text msg = lit "/generate " ++ rest ->
  strip rest = P ->
  P <> [] ->
  strip (skipn 9 (text msg)) = P
  /\ generate_calls (fst (handle_text w update)) =
     match world_reply_text w generating_text with
     | inr _ => [generation_request w P]
     | inl _ => []
     end
  /\ prompt (generation_request w P) = P.
Proof.
  intros Hm Ht <- Hp. split; [|split; [|reflexivity]].
  - now rewrite Ht, strip_slice_9.
  - apply (handle_text_generate_calls _ _ _ _ Hm Ht Hp).
Qed.

Lemma handle_text_one_remote_call_witness :
  strip (skipn 9 (lit "/generate  a cat ")) = lit "a cat"
  /\ generate_calls (fst (handle_text (world_ok answers_no_image)
                                      (text_update "/generate  a cat ")))
     = [generation_request (world_ok answers_no_image) (lit "a cat")]
  /\ prompt (generation_request (world_ok answers_no_image) (lit "a cat")) = lit "a cat".
Proof.
  apply (handle_text_one_remote_call
           (world_ok answers_no_image) (text_update "/generate  a cat ")
           {| text := lit "/generate  a cat " |} (lit " a cat ") (lit "a cat"));
    try reflexivity.
  discriminate.
Defined.

(** C2 fails as stated: the prompt is [cat], and the status reply raises, so
    that no remote call is issued. *)
Lemma handle_text_one_remote_call_counterexample :
  text {| text := lit "/generate cat" |} = lit "/generate " ++ lit "cat"
  /\ strip (lit "cat") = lit "cat"
  /\ lit "cat" <> []
  /\ generate_calls (fst (handle_text world_reply_fails (text_update "/generate cat"))) = []
  /\ snd (handle_text world_reply_fails (text_update "/generate cat"))
     = Raised (RuntimeError "Forbidden: bot was blocked by the user").
Proof.
  repeat split; try reflexivity. discriminate.
Qed.

(** C3.  For a text that is the generate prefix followed by nothing or by
    white space only, the handler issues no remote call; its one action is
    the reply with the fixed text asking for a description, and it ends with
    that reply. *)
Theorem handle_text_blank_prompt w update msg rest :
  message update = Some msg ->
  text msg = lit "/generate " ++ rest ->
  forallb isspace rest = true ->
  handle_text w update =
  ([ReplyText provide_description_text
              (outcome_of (world_reply_text w provide_description_text))],
   result_of (world_reply_text w provide_description_text))
  /\ generate_calls (fst (handle_text w update)) = [].
Proof.
  intros Hm Ht Hb. apply strip_nil_iff in Hb.
  assert (E : handle_text w update =
              ([ReplyText provide_description_text
                          (outcome_of (world_reply_text w provide_description_text))],
               result_of (world_reply_text w provide_description_text))).
  { rewrite (handle_text_generate_branch _ _ _ _ Hm Ht), Hb. simpl.
    unfold reply_text, call.
    destruct (world_reply_text w provide_description_text); reflexivity. }
  split; [exact E|]. now rewrite E.
Qed.

Lemma handle_text_blank_prompt_witness :
  handle_text (world_ok answers_two_images) (text_update "/generate    ") =
  ([ReplyText (lit "Please provide a description after /generate") Ok], Returned tt)
  /\ generate_calls (fst (handle_text (world_ok answers_two_images)
                                      (text_update "/generate    "))) = [].
Proof.
  apply (handle_text_blank_prompt
           (world_ok answers_two_images) (text_update "/generate    ")
           {| text := lit "/generate    " |} (lit "   ")); reflexivity.
Defined.

(** C4, as the code has it.  For a non-empty prompt, when the [try] (the
    remote call and the processing of its response) raises an [Exception]
    [e] after the trace [t], the handler catches it, logs
    [Error generating image: <str(e)>] and edits the status message to the
    fixed error text.  [e] is not raised again: the handler returns when the
    edit succeeds, and when the edit raises, it is the edit's exception that
    leaves the handler. *)
Theorem handle_text_catches_exception w update msg rest m t e :
  message update = Some msg ->
  text msg = lit "/generate " ++ rest ->
  strip rest <> [] ->
  world_reply_text w generating_text = inr m ->
  try_body w (strip rest) m = (t, Raised e) ->
  exn_is_Exception e = true ->
  handle_text w update =
  (ReplyText generating_text Ok :: t ++
     [LogError (lit "Error generating image: " ++ exn_str e);
      EditText m generation_error_text
               (outcome_of (world_edit_text w m generation_error_text))],
   match world_edit_text w m generation_error_text with
   | inr _ => Returned tt
   | inl e' => Raised e'
   end).
Proof. exact (handle_text_try_raises w update msg rest m t e). Qed.

Lemma handle_text_catches_exception_witness :
  handle_text world_generate_fails (text_update "/generate cat") =
  ([ReplyText generating_text Ok;
    Generate (generation_request world_generate_fails (lit "cat"))
             (Err (RuntimeError "UNAUTHENTICATED"));
    LogError (lit "Error generating image: UNAUTHENTICATED");
    EditText status1 generation_error_text Ok],
   Returned tt).
Proof.
  apply (handle_text_catches_exception
           world_generate_fails (text_update "/generate cat")
           {| text := lit "/generate cat" |} (lit "cat") status1
           [Generate (generation_request world_generate_fails (lit "cat"))
                     (Err (RuntimeError "UNAUTHENTICATED"))]
           (RuntimeError "UNAUTHENTICATED")); try reflexivity.
  discriminate.
Defined.

(** C4 fails as stated: the remote call raises and is caught, the edit of
    the status message raises too, and that exception leaves the handler. *)
Lemma handle_text_catches_exception_counterexample :
  handle_text world_generate_and_edit_fail (text_update "/generate cat") =
  ([ReplyText generating_text Ok;
    Generate (generation_request world_generate_and_edit_fail (lit "cat"))
             (Err (RuntimeError "UNAUTHENTICATED"));
    LogError (lit "Error generating image: UNAUTHENTICATED");
    EditText status1 generation_error_text (Err (RuntimeError "Timed out"))],
   Raised (RuntimeError "Timed out")).
Proof. reflexivity. Qed.

(** C5.  For a non-empty prompt and a response, iterated to its end, in which
    no entry holds an image artifact: the handler sends no photo, no error
    and no other reply, and neither edits nor deletes the status message.
    Its trace is the status reply and the remote call (or the status reply
    alone, when that raises and no call is made). *)
Theorem handle_text_no_image w update msg rest entries :
  message update = Some msg ->
  text msg = lit "/generate " ++ rest ->
  strip rest <> [] ->
  world_generate w (generation_request w (strip rest))
  = inr (yield_all entries StopIteration) ->
  Forall (fun resp => Forall (fun a => type a <> ARTIFACT_IMAGE) (artifacts resp))
         entries ->
  handle_text w update =
  match world_reply_text w generating_text with
  | inr _ =>
      ([ReplyText generating_text Ok;
        Generate (generation_request w (strip rest)) Ok],
       Returned tt)
  | inl e => ([ReplyText generating_text (Err e)], Raised e)
  end.
Proof.
  intros Hm Ht Hp Hg Hn. apply first_image_none in Hn.
  destruct (world_reply_text w generating_text) as [e|m] eqn:Hs.
  - apply (handle_text_status_raises _ _ _ _ _ Hm Ht Hp Hs).
  - apply (handle_text_try_returns _ _ _ _ _ _ FallThrough Hm Ht Hp Hs).
    unfold try_body, generate, call. rewrite Hg.
    unfold bind. now rewrite (for_answers_no_image _ _ _ _ Hn).
Qed.

Lemma handle_text_no_image_witness :
  handle_text (world_ok answers_no_image) (text_update "/generate cat") =
  ([ReplyText generating_text Ok;
    Generate (generation_request (world_ok answers_no_image) (lit "cat")) Ok],
   Returned tt).
Proof.
  apply (handle_text_no_image
           (world_ok answers_no_image) (text_update "/generate cat")
           {| text := lit "/generate cat" |} (lit "cat")
           [ {| artifacts := [other1] |}; {| artifacts := [] |} ]);
    try reflexivity.
  - discriminate.
  - repeat constructor; discriminate.
Defined.




(** C8, as the code has it.  For every update, every error and every world,
    the error handler logs [Update <update> caused error <error>] and
    returns: nothing it raises inside its [try] leaves it.  For an update
    with a message it attempts the reply
    [Sorry, something went wrong. Please try again later.] and swallows what
    that attempt raises; for [None] and for an update without a message it
    attempts no reply (the [AttributeError] is swallowed). *)
Theorem error_handler_swallows w update err :
  error_handler w update err =
  match update with
  | Some u =>
      (LogError (lit "Update " ++ update_str u ++ lit " caused error " ++ exn_str err)
       :: match message u with
          | Some _ =>
              [ReplyText
                 (lit "Sorry, something went wrong. Please try again later.")
                 (outcome_of
                    (world_reply_text
                       w (lit "Sorry, something went wrong. Please try again later.")))]
          | None => []
          end,
       Returned tt)
  | None =>
      ([LogError (lit "Update None caused error " ++ exn_str err)], Returned tt)
  end.
Proof.
  unfold error_handler, error_handler_log, format_update, update_message.
  destruct update as [[s [msg|]]|]; simpl; try reflexivity.
  unfold reply_text, call, something_went_wrong_text.
  destruct (world_reply_text w _); reflexivity.
Qed.

Lemma error_handler_swallows_witness :
  error_handler world_reply_fails (Some (text_update "hello"))
                (RuntimeError "Timed out") =
  ([LogError (lit "Update <update> caused error Timed out");
    ReplyText (lit "Sorry, something went wrong. Please try again later.")
              (Err (RuntimeError "Forbidden: bot was blocked by the user"))],
   Returned tt)
  /\ error_handler (world_ok answers_no_image) (Some (text_update "hello"))
                   KeyboardInterrupt =
     ([LogError (lit "Update <update> caused error ");
       ReplyText (lit "Sorry, something went wrong. Please try again later.") Ok],
      Returned tt).
Proof.
  split.
  - apply (error_handler_swallows world_reply_fails (Some (text_update "hello"))
                                  (RuntimeError "Timed out")).
  - apply (error_handler_swallows (world_ok answers_no_image)
                                  (Some (text_update "hello")) KeyboardInterrupt).
Defined.

(** C8 fails as stated: for the update [None], and for an update without a
    message, the handler logs and returns, and attempts no reply at all. *)
Lemma error_handler_no_reply_counterexample :
  error_handler (world_ok answers_no_image) None (RuntimeError "Timed out")
  = ([LogError (lit "Update None caused error Timed out")], Returned tt)
  /\ error_handler (world_ok answers_no_image) (Some update_without_message)
                   (RuntimeError "Timed out")
     = ([LogError (lit "Update <update> caused error Timed out")], Returned tt)
  /\ (forall txt o,
         ~ In (ReplyText txt o)
              (fst (error_handler (world_ok answers_no_image) None
                                  (RuntimeError "Timed out")))).
Proof.
  split; [reflexivity|split; [reflexivity|]].
  intros txt o [H|[]]. discriminate H.
Qed.

(** C9.  A text that does not start with [/generate ] (the blank included)
    makes the handler a no-op: it returns with an empty trace. *)
Theorem handle_text_without_prefix_is_noop w update msg :
  message update = Some msg ->
  startswith (text msg) (lit "/generate ") = false ->
  handle_text w update = ([], Returned tt).
Proof.
  intros Hm Hs. unfold handle_text, update_message.
  rewrite Hm, bind_ret_l. cbv zeta. now rewrite Hs.
Qed.

Lemma handle_text_without_prefix_is_noop_witness :
  handle_text (world_ok answers_two_images) (text_update "/generate") = ([], Returned tt)
  /\ handle_text (world_ok answers_two_images) (text_update "/generatex") = ([], Returned tt)
  /\ handle_text (world_ok answers_two_images) (text_update "a cat") = ([], Returned tt).
Proof.
  split; [|split].
  - apply (handle_text_without_prefix_is_noop
             _ _ {| text := lit "/generate" |}); reflexivity.
  - apply (handle_text_without_prefix_is_noop
             _ _ {| text := lit "/generatex" |}); reflexivity.
  - apply (handle_text_without_prefix_is_noop
             _ _ {| text := lit "a cat" |}); reflexivity.
Defined.

(** C10, as the code has it.  When the photo reply has been sent and the
    deletion of the status message raises an instance of [Exception], the
    [except] branch logs it and attempts the edit of the status message to
    U+274C, a blank,
    [Sorry, there was an error generating your image. Please try again later.]:
    the one request has both a delivered photo and the error text. *)
Theorem handle_text_photo_then_error w update msg rest entries tail a m m' e :
  message update = Some msg ->
  text msg = lit "/generate " ++ rest ->
  strip rest <> [] ->
  world_reply_text w generating_text = inr m ->
  world_generate w (generation_request w (strip rest)) = inr (yield_all entries tail) ->
  first_image entries = Some a ->
  world_reply_photo w {| buffer := binary a; position := 0 |}
                    (caption_for (strip rest)) = inr m' ->
  world_delete w m = inl e ->
  exn_is_Exception e = true ->
  handle_text w update =
  ([ReplyText generating_text Ok;
    Generate (generation_request w (strip rest)) Ok;
    ReplyPhoto {| buffer := binary a; position := 0 |} (caption_for (strip rest)) Ok;
    Delete m (Err e);
    LogError (lit "Error generating image: " ++ exn_str e);
    EditText m
             (0x274C :: lit " Sorry, there was an error generating your image. Please try again later.")
             (outcome_of
                (world_edit_text
                   w m
                   (0x274C :: lit " Sorry, there was an error generating your image. Please try again later.")))],
   match world_edit_text
           w m
           (0x274C :: lit " Sorry, there was an error generating your image. Please try again later.")
   with
   | inr _ => Returned tt
   | inl e' => Raised e'
   end).
Proof.
  intros Hm Ht Hp Hs Hg Hf Hph Hd He.
  rewrite (handle_text_try_raises
             w update msg rest m
             [Generate (generation_request w (strip rest)) Ok;
              ReplyPhoto {| buffer := binary a; position := 0 |}
                         (caption_for (strip rest)) Ok;
              Delete m (Err e)] e Hm Ht Hp Hs); [reflexivity| |exact He].
  rewrite (try_body_first_image _ _ _ _ _ _ Hg Hf). cbv zeta.
  now rewrite Hph, Hd.
Qed.

Lemma handle_text_photo_then_error_witness :
  handle_text world_delete_fails (text_update "/generate cat") =
  ([ReplyText generating_text Ok;
    Generate (generation_request world_delete_fails (lit "cat")) Ok;
    ReplyPhoto {| buffer := [x89; x50; x4e; x47]; position := 0 |}
               (caption_for (lit "cat")) Ok;
    Delete status1 (Err (RuntimeError "Message can't be deleted"));
    LogError (lit "Error generating image: Message can't be deleted");
    EditText status1
             (0x274C :: lit " Sorry, there was an error generating your image. Please try again later.")
             Ok],
   Returned tt).
Proof.
  apply (handle_text_photo_then_error
           world_delete_fails (text_update "/generate cat")
           {| text := lit "/generate cat" |} (lit "cat")
           [ {| artifacts := [other1] |}; {| artifacts := [other1; image1; image2] |} ]
           (IterRaise (RuntimeError "stream closed")) image1 status1 photo1
           (RuntimeError "Message can't be deleted")); try reflexivity.
  discriminate.
Defined.

(** C10 fails as stated: the photo reply is delivered, the deletion of the
    status message raises something that is no [Exception], and the
    [except] branch does not run: the status message is not edited, and what
    was raised leaves the handler. *)
Lemma handle_text_photo_then_signal_counterexample :
  handle_text world_delete_interrupted (text_update "/generate cat") =
  ([ReplyText generating_text Ok;
    Generate (generation_request world_delete_interrupted (lit "cat")) Ok;
    ReplyPhoto {| buffer := [x89; x50; x4e; x47]; position := 0 |}
               (caption_for (lit "cat")) Ok;
    Delete status1 (Err KeyboardInterrupt)],
   Raised KeyboardInterrupt)
  /\ (forall m txt o,
         ~ In (EditText m txt o)
              (fst (handle_text world_delete_interrupted (text_update "/generate cat")))).
Proof.
  split; [reflexivity|].
  intros m txt o H. vm_compute in H.
  repeat (destruct H as [H|H]; [discriminate H|]). exact H.
Qed.

(** ** Further lemmas on the [try] and on the handler *)

Lemma for_answers_none w p m (answers : Answers) :
  first_image_reached answers = None ->
  for_answers w p m answers = ([], iteration_end answers).
Proof.
  induction answers as [|resp rest IH|e]; simpl; try reflexivity.
  destruct (find is_image (artifacts resp)) as [b|] eqn:F; [discriminate|].
  intros H. rewrite (for_artifacts_no_image _ _ _ _ F), bind_ret_l. auto.
Qed.

Lemma send_image_eq w p m a :
  send_image w p m a =
  match world_reply_photo w {| buffer := binary a; position := 0 |} (caption_for p) with
  | inl e =>
      ([ReplyPhoto {| buffer := binary a; position := 0 |} (caption_for p) (Err e)],
       Raised e)
  | inr _ =>
      match world_delete w m with
      | inl e =>
          ([ReplyPhoto {| buffer := binary a; position := 0 |} (caption_for p) Ok;
            Delete m (Err e)], Raised e)
      | inr _ =>
          ([ReplyPhoto {| buffer := binary a; position := 0 |} (caption_for p) Ok;
            Delete m Ok], Returned Return)
      end
  end.
Proof.
  unfold send_image, reply_photo, delete, call, seek, BytesIO_new. simpl.
  destruct (world_reply_photo w _ _); [reflexivity|].
  simpl. destruct (world_delete w m); reflexivity.
Qed.

(** The [try], from the answers of the world. *)
Lemma try_body_eq w p m :
  try_body w p m =
  match world_generate w (generation_request w p) with
  | inl e => ([Generate (generation_request w p) (Err e)], Raised e)
  | inr answers =>
      match first_image_reached answers with
      | Some a =>
          (Generate (generation_request w p) Ok :: fst (send_image w p m a),
           snd (send_image w p m a))
      | None => ([Generate (generation_request w p) Ok], iteration_end answers)
      end
  end.
Proof.
  unfold try_body, generate, call.
  destruct (world_generate w _) as [e|answers]; [reflexivity|].
  unfold bind at 1.
  destruct (first_image_reached answers) as [a|] eqn:F.
  - rewrite (for_answers_reached _ _ _ _ _ F).
    now destruct (send_image w p m a).
  - now rewrite (for_answers_none _ _ _ _ F).
Qed.

(** The [try] raises something that is no [Exception]: the [except] branch
    is not entered. *)
Lemma handle_text_try_escapes w update msg rest m t e :
  message update = Some msg ->
  text msg = lit "/generate " ++ rest ->
  strip rest <> [] ->
  world_reply_text w generating_text = inr m ->
  try_body w (strip rest) m = (t, Raised e) ->
  exn_is_Exception e = false ->
  handle_text w update = (ReplyText generating_text Ok :: t, Raised e).
Proof.
  intros Hm Ht Hp Hs Hb He. rewrite (handle_text_generate_branch _ _ _ _ Hm Ht).
  destruct (strip rest) eqn:E; [congruence|]. simpl negb. cbv iota.
  unfold reply_text, call. rewrite Hs. unfold bind at 1.
  rewrite Hb. unfold try_except_Exception. rewrite He. reflexivity.
Qed.

(** The handler at a generate message with a prompt, from the [try]. *)
Lemma handle_text_prompt_eq w update msg rest :
  message update = Some msg ->
  text msg = lit "/generate " ++ rest ->
  strip rest <> [] ->
  handle_text w update =
  match world_reply_text w generating_text with
  | inl e => ([ReplyText generating_text (Err e)], Raised e)
  | inr m =>
      match try_body w (strip rest) m with
      | (t, Returned _) => (ReplyText generating_text Ok :: t, Returned tt)
      | (t, Raised e) =>
          if exn_is_Exception e
          then (ReplyText generating_text Ok :: t ++
                  [LogError (error_generating_log e);
                   EditText m generation_error_text
                            (outcome_of (world_edit_text w m generation_error_text))],
                result_of (world_edit_text w m generation_error_text))
          else (ReplyText generating_text Ok :: t, Raised e)
      end
  end.
Proof.
  intros Hm Ht Hp.
  destruct (world_reply_text w generating_text) as [e|m] eqn:Hs.
  - apply (handle_text_status_raises _ _ _ _ _ Hm Ht Hp Hs).
  - destruct (try_body w (strip rest) m) as [t [f|e]] eqn:Hb.
    + apply (handle_text_try_returns _ _ _ _ _ _ _ Hm Ht Hp Hs Hb).
    + destruct (exn_is_Exception e) eqn:He.
      * apply (handle_text_try_raises _ _ _ _ _ _ _ Hm Ht Hp Hs Hb He).
      * apply (handle_text_try_escapes _ _ _ _ _ _ _ Hm Ht Hp Hs Hb He).
Qed.

(** Outside the generate branch with a prompt: nothing, or the one reply
    that asks for a description. *)
Lemma handle_text_quiet_eq w update :
  (forall msg rest, message update = Some msg ->
                    text msg = lit "/generate " ++ rest -> strip rest = []) ->
  (exists r, handle_text w update = ([], r))
  \/ handle_text w update =
     ([ReplyText provide_description_text
                 (outcome_of (world_reply_text w provide_description_text))],
      result_of (world_reply_text w provide_description_text)).
Proof.
  intros H. unfold handle_text, update_message.
  destruct (message update) as [msg|] eqn:Hm; [|left; eexists; reflexivity].
  rewrite bind_ret_l. cbv zeta.
  destruct (startswith (text msg) (lit "/generate ")) eqn:Hs;
    [|left; eexists; reflexivity].
  destruct (startswith_inv _ _ Hs) as [rest Ht].
  rewrite Ht, strip_slice_9, (H msg rest eq_refl Ht). simpl.
  right. unfold reply_text, call.
  destruct (world_reply_text w provide_description_text); reflexivity.
Qed.

Lemma iteration_end_Exception (answers : Answers) e :
  iteration_raises_Exception_only answers ->
  iteration_end answers = Raised e -> exn_is_Exception e = true.
Proof.
  induction answers as [|resp rest IH|e']; simpl; intros H E.
  - discriminate.
  - auto.
  - now injection E as <-.
Qed.

Lemma try_body_raises_Exception w p m t e :
  raises_Exception_only w ->
  try_body w p m = (t, Raised e) -> exn_is_Exception e = true.
Proof.
  intros (Hg & Hi & Hph & Hd). rewrite try_body_eq.
  destruct (world_generate w _) as [e'|answers] eqn:G.
  - intros [= _ <-]. eauto.
  - destruct (first_image_reached answers) as [a|].
    + rewrite send_image_eq.
      destruct (world_reply_photo w _ _) as [e'|m'] eqn:P.
      * simpl. intros [= _ <-]. eauto.
      * destruct (world_delete w m) as [e'|u] eqn:D; simpl.
        -- intros [= _ <-]. eauto.
        -- discriminate.
    + intros [= _ E]. eapply iteration_end_Exception; eauto.
Qed.

(** The loop over the entries of [entries], then of [tail]. *)
Lemma for_answers_yield_all w p m entries tail :
  for_answers w p m (yield_all entries tail) =
  match first_image entries with
  | Some a => send_image w p m a
  | None => for_answers w p m tail
  end.
Proof.
  unfold first_image.
  induction entries as [|resp entries IH]; simpl; [reflexivity|].
  rewrite find_app.
  destruct (find is_image (artifacts resp)) as [b|] eqn:F.
  - rewrite (for_artifacts_image _ _ _ _ _ F). apply send_image_leaves.
  - rewrite (for_artifacts_no_image _ _ _ _ F), bind_ret_l. exact IH.
Qed.

Lemma find_filter_same {A} (f : A -> bool) (l : list A) :
  find f (filter f l) = find f l.
Proof.
  induction l as [|x l IH]; simpl; [reflexivity|].
  destruct (f x) eqn:E; simpl; [now rewrite E | exact IH].
Qed.

Lemma first_image_images_only entries :
  first_image (images_only entries) = first_image entries.
Proof.
  unfold first_image, images_only.
  induction entries as [|resp entries IH]; simpl; [reflexivity|].
  now rewrite !find_app, find_filter_same, IH.
Qed.

(** [int] of a time within the second that starts at [n]. *)
Lemma int_within_second (x : Q) (n : Z) :
  (0 <= n)%Z ->
  (inject_Z n <= x)%Q -> (x < inject_Z (n + 1))%Q ->
  int x = n.
Proof.
  unfold int, Qle, Qlt. destruct x as [num den]. simpl.
  intros Hn Hl Hu.
  rewrite Z.quot_div_nonneg by nia.
  symmetry. apply Z.div_unique with (r := (num - Z.pos den * n)%Z); nia.
Qed.

(** Splits a goal on the answers of the world that the handler consults. *)
Ltac world_cases :=
  repeat first
    [ rewrite send_image_eq
    | progress cbv beta iota delta [fst snd]
    | match goal with
      | |- context [world_reply_text ?w ?t] => destruct (world_reply_text w t) eqn:?
      | |- context [world_generate ?w ?r] => destruct (world_generate w r) eqn:?
      | |- context [first_image_reached ?a] => destruct (first_image_reached a) eqn:?
      | |- context [world_reply_photo ?w ?f ?c] => destruct (world_reply_photo w f c) eqn:?
      | |- context [world_delete ?w ?m] => destruct (world_delete w m) eqn:?
      | |- context [iteration_end ?a] => destruct (iteration_end a) eqn:?
      | |- context [exn_is_Exception ?e] => destruct (exn_is_Exception e) eqn:?
      | |- context [world_edit_text ?w ?m ?t] => destruct (world_edit_text w m t) eqn:?
      end ];
  simpl.

(** Reads the membership hypotheses of a concrete trace. *)
Ltac trace_facts :=
  simpl; unfold not; intros;
  repeat match goal with
         | H : _ \/ _ |- _ => destruct H
         | H : False |- _ => destruct H
         | H : _ = _ |- _ => first [discriminate H | injection H as ? ?; subst]
         end.

(** ** Further properties of [handle_text] *)

(** X1.  An update that carries no message makes [handle_text] raise the
    [AttributeError] of [update.message.text]; nothing is sent. *)
Theorem handle_text_without_message w update :
  message update = None ->
  handle_text w update =
  ([], Raised (AttributeError "'NoneType' object has no attribute 'text'")).
Proof. intros H. unfold handle_text, update_message. now rewrite H. Qed.

Lemma handle_text_without_message_witness :
  handle_text (world_ok answers_two_images) update_without_message =
  ([], Raised (AttributeError "'NoneType' object has no attribute 'text'")).
Proof.
  apply (handle_text_without_message (world_ok answers_two_images)
                                     update_without_message).
  reflexivity.
Defined.

(** X2.  When the [try] raises something that is not an instance of
    [Exception], the [except Exception] branch does not run: nothing is
    logged, the status message is not edited, and the handler raises it. *)
Theorem handle_text_signal_escapes w update msg rest m t e :
  message update = Some msg ->
  text msg = lit "/generate " ++ rest ->
  strip rest <> [] ->
  world_reply_text w generating_text = inr m ->
  try_body w (strip rest) m = (t, Raised e) ->
  exn_is_Exception e = false ->
  handle_text w update = (ReplyText generating_text Ok :: t, Raised e)
  /\ (forall log, ~ In (LogError log) (fst (handle_text w update)))
  /\ (forall m' txt o, ~ In (EditText m' txt o) (fst (handle_text w update))).
Proof.
  intros Hm Ht Hp Hs Hb He.
  pose proof (handle_text_try_escapes _ _ _ _ _ _ _ Hm Ht Hp Hs Hb He) as E.
  split; [exact E|]. rewrite E. simpl.
  assert (Ht' : fst (try_body w (strip rest) m) = t) by now rewrite Hb.
  assert (Hr : snd (try_body w (strip rest) m) = Raised e) by now rewrite Hb.
  rewrite try_body_eq in Ht', Hr. subst t.
  split; intros; intros [Hd|Hin]; try discriminate;
    revert Hin Hr; world_cases; trace_facts.
Qed.

Lemma handle_text_signal_escapes_witness :
  handle_text world_generate_interrupted (text_update "/generate cat") =
  ([ReplyText generating_text Ok;
    Generate (generation_request world_generate_interrupted (lit "cat"))
             (Err KeyboardInterrupt)],
   Raised KeyboardInterrupt)
  /\ (forall log, ~ In (LogError log)
                    (fst (handle_text world_generate_interrupted
                                      (text_update "/generate cat"))))
  /\ (forall m' txt o, ~ In (EditText m' txt o)
                         (fst (handle_text world_generate_interrupted
                                           (text_update "/generate cat")))).
Proof.
  apply (handle_text_signal_escapes
           world_generate_interrupted (text_update "/generate cat")
           {| text := lit "/generate cat" |} (lit "cat") status1
           [Generate (generation_request world_generate_interrupted (lit "cat"))
                     (Err KeyboardInterrupt)]
           KeyboardInterrupt); try reflexivity.
  discriminate.
Defined.

(** X3.  When the remote call raises an [Exception], the handler has sent the
    status reply, logs the error and edits the status message to the error
    text; it makes no other call, and ends as the edit ends. *)
Theorem handle_text_remote_call_raises w update msg rest m e :
  message update = Some msg ->
  text msg = lit "/generate " ++ rest ->
  strip rest <> [] ->
  world_reply_text w generating_text = inr m ->
  world_generate w (generation_request w (strip rest)) = inl e ->
  exn_is_Exception e = true ->
  handle_text w update =
  ([ReplyText generating_text Ok;
    Generate (generation_request w (strip rest)) (Err e);
    LogError (lit "Error generating image: " ++ exn_str e);
    EditText m generation_error_text
             (outcome_of (world_edit_text w m generation_error_text))],
   result_of (world_edit_text w m generation_error_text)).
Proof.
  intros Hm Ht Hp Hs Hg He.
  rewrite (handle_text_try_raises
             w update msg rest m
             [Generate (generation_request w (strip rest)) (Err e)]
             e Hm Ht Hp Hs); [reflexivity| |exact He].
  now apply try_body_generate_raises.
Qed.

Lemma handle_text_remote_call_raises_witness :
  handle_text world_generate_fails (text_update "/generate cat") =
  ([ReplyText generating_text Ok;
    Generate (generation_request world_generate_fails (lit "cat"))
             (Err (RuntimeError "UNAUTHENTICATED"));
    LogError (lit "Error generating image: UNAUTHENTICATED");
    EditText status1 generation_error_text Ok],
   Returned tt).
Proof.
  apply (handle_text_remote_call_raises
           world_generate_fails (text_update "/generate cat")
           {| text := lit "/generate cat" |} (lit "cat") status1
           (RuntimeError "UNAUTHENTICATED")); try reflexivity.
  discriminate.
Defined.

(** X4.  When the iteration of the response raises an [Exception] before any
    image artifact has been reached, no photo is sent: the handler logs the
    error and edits the status message to the error text. *)
Theorem handle_text_iteration_raises w update msg rest m entries e :
  message update = Some msg ->
  text msg = lit "/generate " ++ rest ->
  strip rest <> [] ->
  world_reply_text w generating_text = inr m ->
  world_generate w (generation_request w (strip rest))
  = inr (yield_all entries (IterRaise e)) ->
  Forall (fun resp => Forall (fun a => type a <> ARTIFACT_IMAGE) (artifacts resp))
         entries ->
  exn_is_Exception e = true ->
  handle_text w update =
  ([ReplyText generating_text Ok;
    Generate (generation_request w (strip rest)) Ok;
    LogError (lit "Error generating image: " ++ exn_str e);
    EditText m generation_error_text
             (outcome_of (world_edit_text w m generation_error_text))],
   result_of (world_edit_text w m generation_error_text)).
Proof.
  intros Hm Ht Hp Hs Hg Hn He. apply first_image_none in Hn.
  rewrite (handle_text_try_raises
             w update msg rest m
             [Generate (generation_request w (strip rest)) Ok]
             e Hm Ht Hp Hs); [reflexivity| |exact He].
  now apply (try_body_iteration_raises _ _ _ entries).
Qed.

Lemma handle_text_iteration_raises_witness :
  handle_text (world_ok answers_raise_early) (text_update "/generate cat") =
  ([ReplyText generating_text Ok;
    Generate (generation_request (world_ok answers_raise_early) (lit "cat")) Ok;
    LogError (lit "Error generating image: stream closed");
    EditText status1 generation_error_text Ok],
   Returned tt).
Proof.
  apply (handle_text_iteration_raises
           (world_ok answers_raise_early) (text_update "/generate cat")
           {| text := lit "/generate cat" |} (lit "cat") status1
           [ {| artifacts := [other1] |} ] (RuntimeError "stream closed"));
    try reflexivity.
  - discriminate.
  - repeat constructor; discriminate.
Defined.

(** X5.  When the photo reply raises an [Exception], the status message is
    not deleted: the handler logs the error and edits the status message to
    the error text. *)
Theorem handle_text_photo_reply_raises w update msg rest m entries tail a e :
  message update = Some msg ->
  text msg = lit "/generate " ++ rest ->
  strip rest <> [] ->
  world_reply_text w generating_text = inr m ->
  world_generate w (generation_request w (strip rest)) = inr (yield_all entries tail) ->
  first_image entries = Some a ->
  world_reply_photo w {| buffer := binary a; position := 0 |}
                    (caption_for (strip rest)) = inl e ->
  exn_is_Exception e = true ->
  handle_text w update =
  ([ReplyText generating_text Ok;
    Generate (generation_request w (strip rest)) Ok;
    ReplyPhoto {| buffer := binary a; position := 0 |} (caption_for (strip rest)) (Err e);
    LogError (lit "Error generating image: " ++ exn_str e);
    EditText m generation_error_text
             (outcome_of (world_edit_text w m generation_error_text))],
   result_of (world_edit_text w m generation_error_text)).
Proof.
  intros Hm Ht Hp Hs Hg Hf Hph He.
  rewrite (handle_text_try_raises
             w update msg rest m
             [Generate (generation_request w (strip rest)) Ok;
              ReplyPhoto {| buffer := binary a; position := 0 |}
                         (caption_for (strip rest)) (Err e)]
             e Hm Ht Hp Hs); [reflexivity| |exact He].
  rewrite (try_body_first_image _ _ _ _ _ _ Hg Hf). cbv zeta.
  now rewrite Hph.
Qed.

Lemma handle_text_photo_reply_raises_witness :
  handle_text world_photo_fails (text_update "/generate cat") =
  ([ReplyText generating_text Ok;
    Generate (generation_request world_photo_fails (lit "cat")) Ok;
    ReplyPhoto {| buffer := [x89; x50; x4e; x47]; position := 0 |}
               (caption_for (lit "cat")) (Err (RuntimeError "Timed out"));
    LogError (lit "Error generating image: Timed out");
    EditText status1 generation_error_text Ok],
   Returned tt).
Proof.
  apply (handle_text_photo_reply_raises
           world_photo_fails (text_update "/generate cat")
           {| text := lit "/generate cat" |} (lit "cat") status1
           [ {| artifacts := [other1] |}; {| artifacts := [other1; image1; image2] |} ]
           (IterRaise (RuntimeError "stream closed")) image1
           (RuntimeError "Timed out")); try reflexivity.
  discriminate.
Defined.

(** X6.  In every run, the only message the handler deletes or edits is the
    status message, that is the message its own "generating" reply returned;
    and the only text it is edited to is the fixed error text. *)
Theorem handle_text_touches_status_only w update :
  (forall m o, In (Delete m o) (fst (handle_text w update)) ->
               world_reply_text w generating_text = inr m)
  /\ (forall m txt o, In (EditText m txt o) (fst (handle_text w update)) ->
                      world_reply_text w generating_text = inr m
                      /\ txt = generation_error_text).
Proof.
  destruct (handle_text_cases update) as [Hq|(msg & rest & Hm & Ht & Hp)].
  - destruct (handle_text_quiet_eq w update Hq) as [[r ->]| ->];
      split; trace_facts.
  - rewrite (handle_text_prompt_eq _ _ _ _ Hm Ht Hp).
    destruct (world_reply_text w generating_text) as [e|m0]; [split; trace_facts|].
    rewrite try_body_eq. world_cases; split; trace_facts; auto.
Qed.

(** X7.  The status message is deleted only after a photo reply has been
    delivered; and in a run where the deletion succeeds the handler returns
    normally, logs no error and edits nothing. *)
Theorem handle_text_deletes_after_photo w update m o :
  In (Delete m o) (fst (handle_text w update)) ->
  (exists photo caption, In (ReplyPhoto photo caption Ok) (fst (handle_text w update)))
  /\ (o = Ok ->
      snd (handle_text w update) = Returned tt
      /\ (forall log, ~ In (LogError log) (fst (handle_text w update)))
      /\ (forall m' txt o', ~ In (EditText m' txt o') (fst (handle_text w update)))).
Proof.
  destruct (handle_text_cases update) as [Hq|(msg & rest & Hm & Ht & Hp)].
  - destruct (handle_text_quiet_eq w update Hq) as [[r ->]| ->]; trace_facts.
  - rewrite (handle_text_prompt_eq _ _ _ _ Hm Ht Hp).
    destruct (world_reply_text w generating_text) as [e|m0]; [trace_facts|].
    rewrite try_body_eq. world_cases; intros Hin; trace_facts;
      (split; [do 2 eexists; simpl; eauto 6|]);
      intros; try discriminate; repeat split; trace_facts.
Qed.

Lemma handle_text_deletes_after_photo_witness :
  (exists photo caption,
      In (ReplyPhoto photo caption Ok)
         (fst (handle_text (world_ok answers_two_images) (text_update "/generate cat"))))
  /\ (Ok = Ok ->
      snd (handle_text (world_ok answers_two_images) (text_update "/generate cat"))
      = Returned tt
      /\ (forall log,
             ~ In (LogError log)
                  (fst (handle_text (world_ok answers_two_images)
                                    (text_update "/generate cat"))))
      /\ (forall m' txt o',
             ~ In (EditText m' txt o')
                  (fst (handle_text (world_ok answers_two_images)
                                    (text_update "/generate cat"))))).
Proof.
  apply (handle_text_deletes_after_photo
           (world_ok answers_two_images) (text_update "/generate cat") status1 Ok).
  vm_compute. do 3 right. left. reflexivity.
Defined.

(** X8.  The service is never called before the user has been told: a trace
    that holds a remote call starts with the delivered status reply, and the
    call comes right after it. *)
Theorem handle_text_status_before_call w update req o :
  In (Generate req o) (fst (handle_text w update)) ->
  exists m t,
    world_reply_text w generating_text = inr m
    /\ fst (handle_text w update)
       = ReplyText generating_text Ok :: Generate req o :: t.
Proof.
  destruct (handle_text_cases update) as [Hq|(msg & rest & Hm & Ht & Hp)].
  - destruct (handle_text_quiet_eq w update Hq) as [[r ->]| ->]; trace_facts.
  - rewrite (handle_text_prompt_eq _ _ _ _ Hm Ht Hp).
    destruct (world_reply_text w generating_text) as [e|m0]; [trace_facts|].
    rewrite try_body_eq. world_cases; trace_facts; do 2 eexists; eauto.
Qed.

Lemma handle_text_status_before_call_witness :
  exists m t,
    world_reply_text (world_ok answers_no_image) generating_text = inr m
    /\ fst (handle_text (world_ok answers_no_image) (text_update "/generate cat"))
       = ReplyText generating_text Ok
         :: Generate (generation_request (world_ok answers_no_image) (lit "cat")) Ok
         :: t.
Proof.
  apply (handle_text_status_before_call
           (world_ok answers_no_image) (text_update "/generate cat")
           (generation_request (world_ok answers_no_image) (lit "cat")) Ok).
  vm_compute. right. left. reflexivity.
Defined.

(** X9.  The prompt of a remote call is never empty and neither starts nor
    ends with a white space character. *)
Theorem handle_text_prompt_trimmed w update req o :
  In (Generate req o) (fst (handle_text w update)) ->
  prompt req <> []
  /\ (forall c s, prompt req = c :: s -> isspace c = false)
  /\ (forall c s, prompt req = s ++ [c] -> isspace c = false).
Proof.
  intros Hin. apply In_generate_calls in Hin.
  destruct (handle_text_cases update) as [Hq|(msg & rest & Hm & Ht & Hp)].
  - destruct (handle_text_quiet w update Hq) as [E _].
    rewrite E in Hin. destruct Hin.
  - rewrite (handle_text_generate_calls _ _ _ _ Hm Ht Hp) in Hin.
    destruct (world_reply_text w generating_text); [destruct Hin|].
    destruct Hin as [<-|[]]. simpl.
    destruct (strip_spec rest) as (l & r & _ & _ & _ & Hl & Hr).
    split; [exact Hp|split].
    + intros c s E. now rewrite E in Hl.
    + intros c s E. rewrite E, rev_app_distr in Hr. exact Hr.
Qed.

Lemma handle_text_prompt_trimmed_witness :
  prompt (generation_request (world_ok answers_no_image) (lit "a cat")) <> []
  /\ (forall c s,
         prompt (generation_request (world_ok answers_no_image) (lit "a cat")) = c :: s ->
         isspace c = false)
  /\ (forall c s,
         prompt (generation_request (world_ok answers_no_image) (lit "a cat")) = s ++ [c] ->
         isspace c = false).
Proof.
  apply (handle_text_prompt_trimmed
           (world_ok answers_no_image) (text_update "/generate   a cat  ")
           (generation_request (world_ok answers_no_image) (lit "a cat")) Ok).
  vm_compute. right. left. reflexivity.
Defined.

(** X10.  The white space around the prompt has no influence: two generate
    messages whose remainders strip to the same string make the handler do
    the same in the same world. *)
Theorem handle_text_whitespace_insensitive w update1 update2 msg1 msg2 rest1 rest2 :
  message update1 = Some msg1 ->
  message update2 = Some msg2 ->
  text msg1 = lit "/generate " ++ rest1 ->
  text msg2 = lit "/generate " ++ rest2 ->
  strip rest1 = strip rest2 ->
  handle_text w update1 = handle_text w update2.
Proof.
  intros Hm1 Hm2 Ht1 Ht2 E.
  rewrite (handle_text_generate_branch _ _ _ _ Hm1 Ht1).
  rewrite (handle_text_generate_branch _ _ _ _ Hm2 Ht2).
  now rewrite E.
Qed.

Lemma handle_text_whitespace_insensitive_witness :
  handle_text (world_ok answers_two_images) (text_update "/generate cat")
  = handle_text (world_ok answers_two_images) (text_update "/generate    cat  ").
Proof.
  apply (handle_text_whitespace_insensitive
           (world_ok answers_two_images)
           (text_update "/generate cat") (text_update "/generate    cat  ")
           {| text := lit "/generate cat" |} {| text := lit "/generate    cat  " |}
           (lit "cat") (lit "   cat  ")); reflexivity.
Defined.

(** X11.  No exception leaves the handler when the update carries a message,
    the text replies and the edit of a message do not raise, and whatever
    else raises raises an [Exception]. *)
Theorem handle_text_returns w update msg :
  message update = Some msg ->
  (forall txt e, world_reply_text w txt <> inl e) ->
  (forall m txt e, world_edit_text w m txt <> inl e) ->
  raises_Exception_only w ->
  snd (handle_text w update) = Returned tt.
Proof.
  intros Hmsg Hreply Hedit Hexc.
  destruct (handle_text_cases update) as [Hq|(msg' & rest & Hm & Ht & Hp)].
  - destruct (handle_text_quiet_eq w update Hq) as [[r E]| ->].
    + revert E. unfold handle_text, update_message. rewrite Hmsg, bind_ret_l.
      cbv zeta.
      destruct (startswith (text msg) (lit "/generate ")) eqn:Hs.
      * destruct (startswith_inv _ _ Hs) as [rest Ht].
        rewrite Ht, strip_slice_9, (Hq msg rest Hmsg Ht). simpl.
        unfold reply_text, call.
        destruct (world_reply_text w provide_description_text) as [e|m] eqn:R;
          [now apply Hreply in R | discriminate].
      * reflexivity.
    + simpl. destruct (world_reply_text w provide_description_text) as [e|m] eqn:R;
        [now apply Hreply in R | reflexivity].
  - rewrite (handle_text_prompt_eq _ _ _ _ Hm Ht Hp).
    destruct (world_reply_text w generating_text) as [e|m] eqn:R;
      [now apply Hreply in R|].
    destruct (try_body w (strip rest) m) as [t [f|e]] eqn:B; [reflexivity|].
    rewrite (try_body_raises_Exception _ _ _ _ _ Hexc B). simpl.
    destruct (world_edit_text w m generation_error_text) as [e'|m'] eqn:Ed;
      [now apply Hedit in Ed | reflexivity].
Qed.

Lemma handle_text_returns_witness :
  snd (handle_text world_delete_fails (text_update "/generate cat")) = Returned tt.
Proof.
  apply (handle_text_returns world_delete_fails (text_update "/generate cat")
                             {| text := lit "/generate cat" |}).
  - reflexivity.
  - discriminate.
  - discriminate.
  - repeat split; simpl; intros; try discriminate.
    + injection H as <-. reflexivity.
    + injection H as <-. reflexivity.
Defined.

(** X12.  The seed is the whole second of the clock: at any time within the
    second that starts at [n], the seed is [n], so that the same prompt sent
    twice within one second gives the same request. *)
Theorem generation_request_same_second w1 w2 p (n : Z) :
  (0 <= n)%Z ->
  (inject_Z n <= time_time w1)%Q -> (time_time w1 < inject_Z (n + 1))%Q ->
  (inject_Z n <= time_time w2)%Q -> (time_time w2 < inject_Z (n + 1))%Q ->
  seed (generation_request w1 p) = n
  /\ generation_request w1 p = generation_request w2 p.
Proof.
  intros Hn L1 U1 L2 U2. unfold generation_request. simpl.
  rewrite (int_within_second _ n Hn L1 U1), (int_within_second _ n Hn L2 U2).
  split; reflexivity.
Qed.

Lemma generation_request_same_second_witness :
  seed (generation_request (world_ok answers_no_image) (lit "cat")) = 1700000000%Z
  /\ generation_request (world_ok answers_no_image) (lit "cat")
     = generation_request (world_ok_later answers_no_image) (lit "cat").
Proof.
  apply (generation_request_same_second
           (world_ok answers_no_image) (world_ok_later answers_no_image)
           (lit "cat") 1700000000%Z).
  - lia.
  - unfold Qle; simpl; lia.
  - unfold Qlt; simpl; lia.
  - unfold Qle; simpl; lia.
  - unfold Qlt; simpl; lia.
Defined.

(** ** Further properties of the loops *)

(** X13.  Artifacts of other types, and entries without an image, are passed
    over without any effect: the loops do the same on a response and on the
    response with only its image artifacts kept. *)
Theorem for_answers_ignores_other_artifacts w p m entries tail :
  for_answers w p m (yield_all entries tail)
  = for_answers w p m (yield_all (images_only entries) tail).
Proof.
  now rewrite !for_answers_yield_all, first_image_images_only.
Qed.

(** ** The command responders *)

(** X14.  Each command responder makes one call, the text reply with its
    fixed text, whatever the message says, never calls the generation
    service, and ends as the reply ends; for an update without a message it
    raises the [AttributeError] and sends nothing. *)
Theorem command_responders_reply_once w update :
  let respond (txt : str) : M unit :=
    match message update with
    | Some _ =>
        ([ReplyText txt (outcome_of (world_reply_text w txt))],
         result_of (world_reply_text w txt))
    | None =>
        ([], Raised (AttributeError "'NoneType' object has no attribute 'reply_text'"))
    end in
  start w update = respond welcome_message
  /\ help_command w update = respond help_text
  /\ generate_command w update = respond enter_description_text
  /\ generate_calls (fst (start w update)) = []
  /\ generate_calls (fst (help_command w update)) = []
  /\ generate_calls (fst (generate_command w update)) = [].
Proof.
  unfold start, help_command, generate_command, update_message, reply_text, call.
  destruct (message update) as [msg|]; cbv zeta; [|repeat split; reflexivity].
  rewrite !bind_ret_l.
  destruct (world_reply_text w welcome_message),
           (world_reply_text w help_text),
           (world_reply_text w enter_description_text);
    repeat split; reflexivity.
Qed.
